(** * gohome: link expansion engine

    A shallow embedding of the pure parts of the gohome go-link redirector
    (src/model.rs, src/render.rs, src/handlers.rs): short-code
    normalisation, path-remainder extraction, effective-template
    selection, the handlebars rendering of the templates the engine
    synthesises, query merging and the redirect handler [Renderer::get].

    Rust [String]/[&str] values are UTF-8 byte strings; they are modelled
    as [String.string], whose characters are [ascii] bytes, so byte
    offsets (as returned by [str::find]) are positions in the string. *)

From Stdlib Require Import Strings.String Strings.Ascii Lists.List Arith Lia Bool.
Import ListNotations.
Open Scope string_scope.
Open Scope bool_scope.

(** ** String primitives of Rust's [str] *)

(** [s.starts_with(p)] *)
Fixpoint starts_with (p s : string) : bool :=
  match p, s with
  | EmptyString, _ => true
  | String c p', String d s' => Ascii.eqb c d && starts_with p' s'
  | String _ _, EmptyString => false
  end.

(** [s.find(needle)]: the first byte offset at which [needle] occurs. *)
Fixpoint find (s needle : string) : option nat :=
  if starts_with needle s then Some 0
  else match s with
       | EmptyString => None
       | String _ s' => option_map S (find s' needle)
       end.

(** [s.contains(needle)] *)
Definition contains (s needle : string) : bool :=
  match find s needle with Some _ => true | None => false end.

(** [&s[..n]] *)
Fixpoint take (n : nat) (s : string) : string :=
  match n, s with
  | O, _ => EmptyString
  | S n', String c s' => String c (take n' s')
  | S _, EmptyString => EmptyString
  end.

(** [&s[n..]] *)
Fixpoint drop (n : nat) (s : string) : string :=
  match n, s with
  | O, _ => s
  | S n', String _ s' => drop n' s'
  | S _, EmptyString => EmptyString
  end.

(** [s.ends_with(suf)] *)
Definition ends_with (suf s : string) : bool :=
  Nat.leb (String.length suf) (String.length s)
  && String.eqb (drop (String.length s - String.length suf) s) suf.

(** [s.is_empty()] *)
Definition is_empty (s : string) : bool :=
  match s with EmptyString => true | _ => false end.

(** [s.replace(c, r)] for a character pattern [c]. *)
Fixpoint replace_char (c : ascii) (r s : string) : string :=
  match s with
  | EmptyString => EmptyString
  | String d s' =>
      if Ascii.eqb d c then r ++ replace_char c r s'
      else String d (replace_char c r s')
  end.

(** ** src/model.rs: [normalized_id] *)

(** Upper-case hexadecimal digit of a nibble, as the [urlencoding] crate
    writes it. *)
Definition hex_digit (n : nat) : ascii :=
  if Nat.ltb n 10 then ascii_of_nat (48 + n) else ascii_of_nat (55 + n).

(** Bytes [urlencoding::encode] leaves alone: ASCII alphanumerics and
    [- . _ ~]. *)
Definition unreserved (c : ascii) : bool :=
  let n := nat_of_ascii c in
  (Nat.leb 48 n && Nat.leb n 57) || (Nat.leb 65 n && Nat.leb n 90)
  || (Nat.leb 97 n && Nat.leb n 122)
  || Nat.eqb n 45 || Nat.eqb n 46 || Nat.eqb n 95 || Nat.eqb n 126.

Definition encode_byte (c : ascii) : string :=
  if unreserved c then String c EmptyString
  else let n := nat_of_ascii c in
       String "%" (String (hex_digit (n / 16)) (String (hex_digit (n mod 16)) EmptyString)).

(** [urlencoding::encode]: percent-encode every byte but the unreserved ones. *)
Fixpoint encode (s : string) : string :=
  match s with
  | EmptyString => EmptyString
  | String c s' => encode_byte c ++ encode s'
  end.

(** [urlencoding::encode(short).replace('-', "to")] *)
Definition normalized_id (short : string) : string :=
  replace_char "-" "to" (encode short).

(** ** src/render.rs: [Renderer::path_remainder] *)

Definition path_remainder (full_path short_slug : string) : string :=
  let slug := if starts_with "/" short_slug then short_slug
              else "/" ++ short_slug in
  match find full_path slug with
  | Some start_index =>
      let end_index := start_index + String.length slug in
      let before_match := take start_index full_path in
      let after_match := drop end_index full_path in
      before_match ++ after_match
  | None => full_path
  end.

(** ** src/render.rs: [Renderer::with_path] (also inlined in
    src/handlers.rs [expand_link]) *)

Definition with_path (path long : string) : string :=
  if negb (contains long "{{") && negb (is_empty path) then
    if ends_with "/" long then long ++ "{{path}}"
    else long ++ "/" ++ "{{path}}"
  else long.

Example normalized_id_ex1 : normalized_id "rust-lang/book" = "rusttolang%2Fbook".
Proof. reflexivity. Qed.
Example normalized_id_ex2 : normalized_id "a/b?c=d&e" = "a%2Fb%3Fc%3Dd%26e".
Proof. reflexivity. Qed.
Example path_remainder_ex1 : path_remainder "/nyt/sports/article" "nyt" = "/sports/article".
Proof. reflexivity. Qed.
Example path_remainder_ex2 : path_remainder "/post-123-post-456" "post-" = "123-post-456".
Proof. reflexivity. Qed.
Example path_remainder_ex4 : path_remainder "/nyt" "/nyt" = "".
Proof. reflexivity. Qed.
Example with_path_ex : with_path "extra" "http://host.com/foo/" = "http://host.com/foo/{{path}}".
Proof. reflexivity. Qed.

(** ** The handlebars fragment the engine relies on

    [Handlebars::render_template] is an external crate.  This is the part
    of its behaviour the templates of this program exercise: text outside
    [{{ ... }}] is copied verbatim, and each [{{e}}] writes the value of
    the expression [e] in the context [{"path": path}] through handlebars'
    default HTML escape: [path] is the [path] field, any other plain name
    is missing and its value is empty (non-strict mode), and a helper call
    or a literal has the value the [helpers] argument gives it.  Block
    helpers, [else], comments, partials, triple-stash, whitespace control
    and a [{{] escaped by a backslash are outside this fragment.  [None]
    stands for a render error or for a construct outside the fragment. *)

Inductive tok : Type :=
| TText (s : string)
| TExpr (s : string).

(** [handlebars::html_escape], the default escape function of
    [Handlebars::new()]. *)
Fixpoint html_escape (s : string) : string :=
  match s with
  | EmptyString => EmptyString
  | String c s' =>
      let e :=
        if Ascii.eqb c "<" then "&lt;"
        else if Ascii.eqb c ">" then "&gt;"
        else if Ascii.eqb c (ascii_of_nat 34) then "&quot;"
        else if Ascii.eqb c "&" then "&amp;"
        else if Ascii.eqb c "'" then "&#x27;"
        else if Ascii.eqb c "`" then "&#x60;"
        else if Ascii.eqb c "=" then "&#x3D;"
        else String c EmptyString in
      e ++ html_escape s'
  end.

(** Splits a template into literal text and the contents of each
    [{{ ... }}]; an unclosed [{{] is a parse error. *)
Fixpoint tokenize (fuel : nat) (s : string) : option (list tok) :=
  match fuel with
  | O => None
  | S fuel' =>
      match find s "{{" with
      | None => Some [TText s]
      | Some i =>
          if ends_with "\" (take i s) then None else
          let rest := drop (i + 2) s in
          match find rest "}}" with
          | None => None
          | Some j =>
              match tokenize fuel' (drop (j + 2) rest) with
              | Some ts => Some (TText (take i s) :: TExpr (take j rest) :: ts)
              | None => None
              end
          end
      end
  end.

Definition is_space (c : ascii) : bool := Ascii.eqb c " ".

Fixpoint trim_start (s : string) : string :=
  match s with
  | String c s' => if is_space c then trim_start s' else s
  | EmptyString => EmptyString
  end.

Fixpoint rev_str (s : string) : string :=
  match s with
  | EmptyString => EmptyString
  | String c s' => rev_str s' ++ String c EmptyString
  end.

Definition trim (s : string) : string := rev_str (trim_start (rev_str (trim_start s))).

Definition ident_char (c : ascii) : bool :=
  let n := nat_of_ascii c in
  (Nat.leb 48 n && Nat.leb n 57) || (Nat.leb 65 n && Nat.leb n 90)
  || (Nat.leb 97 n && Nat.leb n 122) || Nat.eqb n 95 || Nat.eqb n 45.

Fixpoint all_ident (s : string) : bool :=
  match s with
  | EmptyString => true
  | String c s' => ident_char c && all_ident s'
  end.

Definition is_ident (s : string) : bool := negb (is_empty s) && all_ident s.

(** Names that do not read the context: the helpers registered by
    [setup] in src/render.rs and src/handlers.rs, handlebars' built-in
    helpers, and its keywords and literals. *)
Definition reserved_names : list string :=
  ["query_escape"; "path_escape"; "encode"; "lowercase"; "uppercase";
   "trimsuffix"; "trimprefix"; "now"; "nowformat"; "dateformat"; "match";
   "if"; "unless"; "each"; "with"; "lookup"; "raw"; "log"; "eq"; "ne";
   "gt"; "gte"; "lt"; "lte"; "and"; "or"; "not"; "len";
   "else"; "this"; "true"; "false"; "null"].

Definition digit_or_dash (c : ascii) : bool :=
  let n := nat_of_ascii c in (Nat.leb 48 n && Nat.leb n 57) || Nat.eqb n 45.

(** A plain name of the context other than a helper, keyword or number. *)
Definition context_name (name : string) : bool :=
  is_ident name && negb (existsb (String.eqb name) reserved_names)
  && match name with String c _ => negb (digit_or_dash c) | EmptyString => false end.

(** Block and [else] markers, comments, partials, decorators,
    triple-stash, [&] and whitespace control, and the empty expression. *)
Definition outside_fragment (name : string) : bool :=
  match name with
  | EmptyString => true
  | String c _ =>
      existsb (Ascii.eqb c) (list_ascii_of_string "#/^!>{&~*")
  end
  || ends_with "~" name || String.eqb name "else" || starts_with "else " name.

(** The value of the expression of a [{{e}}]. *)
Definition expr_value (helpers : string -> string -> option string)
    (path e : string) : option string :=
  let name := trim e in
  if outside_fragment name then None
  else if String.eqb name "path" then Some path
  else if context_name name then Some EmptyString
  else helpers path name.

(** [{{e}}] writes the value through the default escape. *)
Definition render_expr (helpers : string -> string -> option string)
    (path e : string) : option string :=
  option_map html_escape (expr_value helpers path e).

Fixpoint render_tokens (helpers : string -> string -> option string)
    (path : string) (ts : list tok) : option string :=
  match ts with
  | [] => Some EmptyString
  | TText s :: ts' =>
      match render_tokens helpers path ts' with Some r => Some (s ++ r) | None => None end
  | TExpr e :: ts' =>
      match render_expr helpers path e, render_tokens helpers path ts' with
      | Some v, Some r => Some (v ++ r)
      | _, _ => None
      end
  end.

(** [handlebars.render_template(template, &json!({"path": path}))] *)
Definition render_template (helpers : string -> string -> option string)
    (template path : string) : option string :=
  match tokenize (S (String.length template)) template with
  | Some ts => render_tokens helpers path ts
  | None => None
  end.

(** The templates [with_path] builds call no helper; a helper call in a
    stored pattern is left outside the fragment here. *)
Definition no_helpers (_ _ : string) : option string := None.

(** Template selection followed by rendering: the common first half of
    [Renderer::expand_link] and of [handlers::expand_link]. *)
Definition expand (path long : string) : option string :=
  render_template no_helpers (with_path path long) path.

Example expand_remainder : expand "extra" "http://host.com/foo" = Some "http://host.com/foo/extra".
Proof. reflexivity. Qed.
Example expand_remainder_slash : expand "extra" "http://host.com/foo/" = Some "http://host.com/foo/extra".
Proof. reflexivity. Qed.
Example expand_no_mangle : expand "" "http://host.com/foo%2f/bar" = Some "http://host.com/foo%2f/bar".
Proof. reflexivity. Qed.
Example expand_no_mangle_path : expand "extra" "http://host.com/foo%2f/bar" = Some "http://host.com/foo%2f/bar/extra".
Proof. reflexivity. Qed.
Example expand_undefined : expand "bar" "http://host.com/{{ bar }}" = Some "http://host.com/".
Proof. reflexivity. Qed.
Example expand_defined : expand "bar" "http://host.com/{{path}}" = Some "http://host.com/bar".
Proof. reflexivity. Qed.

(** ** src/handlers.rs: [expand_link] with its query merge

    A [HashMap<String, String>] of query parameters is modelled by the
    list of its entries in iteration order (keys distinct); every
    statement below holds for every order. *)

Definition query_pair (kv : string * string) : string :=
  encode (fst kv) ++ "=" ++ encode (snd kv).

Definition handlers_expand_link (path : string)
    (query_params : list (string * string)) (long : string) : option string :=
  match expand path long with
  | None => None
  | Some expanded =>
      Some (match query_params with
            | [] => expanded
            | _ :: _ =>
                let query_string := String.concat "&" (map query_pair query_params) in
                if contains expanded "?" then expanded ++ "&" ++ query_string
                else expanded ++ "?" ++ query_string
            end)
  end.

(** ** Reading a query back, as the [url] crate does

    [Url::query]: the text after the first [?] and before the fragment;
    [Url::query_pairs] ([form_urlencoded::parse]): split on [&], skip empty
    pieces, split each piece at its first [=], turn [+] into a space and
    percent-decode. *)


Fixpoint split_on (c : ascii) (s : string) : list string :=
  match s with
  | EmptyString => [EmptyString]
  | String d s' =>
      if Ascii.eqb d c then EmptyString :: split_on c s'
      else match split_on c s' with
           | x :: xs => String d x :: xs
           | [] => [String d EmptyString]
           end
  end.

Definition hex_val (c : ascii) : option nat :=
  let n := nat_of_ascii c in
  if Nat.leb 48 n && Nat.leb n 57 then Some (n - 48)
  else if Nat.leb 65 n && Nat.leb n 70 then Some (n - 55)
  else if Nat.leb 97 n && Nat.leb n 102 then Some (n - 87)
  else None.

Fixpoint percent_decode (s : string) : string :=
  match s with
  | EmptyString => EmptyString
  | String c tl =>
      if Ascii.eqb c "%" then
        match tl with
        | String h (String l rest) =>
            match hex_val h, hex_val l with
            | Some a, Some b => String (ascii_of_nat (a * 16 + b)) (percent_decode rest)
            | _, _ => String c (percent_decode tl)
            end
        | _ => String c (percent_decode tl)
        end
      else String c (percent_decode tl)
  end.

Definition decode_component (s : string) : string :=
  percent_decode (replace_char "+" " " s).

Definition decode_pair (piece : string) : string * string :=
  match find piece "=" with
  | Some i => (decode_component (take i piece), decode_component (drop (i + 1) piece))
  | None => (decode_component piece, EmptyString)
  end.

Definition query_pairs (q : string) : list (string * string) :=
  map decode_pair (filter (fun p => negb (is_empty p)) (split_on "&" q)).

Example handlers_query_ex :
  handlers_expand_link "Foo Bar baz" [("a", "1"); ("bb", "2")]
    "https://www.google.com/{{path}}"
  = Some "https://www.google.com/Foo Bar baz?a=1&bb=2".
Proof. reflexivity. Qed.
Example query_pairs_ex :
  query_pairs "q=Foo%20Bar+baz&&a=1&bb" = [("q", "Foo Bar baz"); ("a", "1"); ("bb", "")].
Proof. reflexivity. Qed.

(** ** src/render.rs: [Renderer::expand_link] and [Renderer::get]

    The [url] crate's parser, the link and stats tables of [db::Db] are
    collaborators outside this repository's code; they are parameters of
    the section. *)

Inductive expand_error : Type :=
| RenderError
| UrlParseError.

Inductive result (A E : Type) : Type :=
| Ok (a : A)
| Err (e : E).
Arguments Ok {A E} a.
Arguments Err {A E} e.

(** A reply of [redirect_with_status]: a [Location] and a status code. *)
Record reply : Type := Redirect { location : string; status : nat }.

(** Store calls and log records made while serving a request, in order. *)
Inductive event : Type :=
| LinkGet (short : string)
| StatsIncr (short : string) (succeeded : bool)
| Logged (e : expand_error).

Section Renderer.

(** The parsed URL type of the [url] crate and its serialisation. *)
Variable Url : Type.
Variable url_to_string : Url -> string.
(** [Url::parse] *)
Variable url_parse : string -> option Url.
(** [Url::parse_with_params] *)
Variable url_parse_with_params : string -> list (string * string) -> option Url.

Definition renderer_expand_link (path : string)
    (query_params : list (string * string)) (long : string)
    : result Url expand_error :=
  let template := with_path path long in
  match render_template no_helpers template path with
  | None => Err RenderError
  | Some expanded =>
      let u := match query_params with
               | [] => url_parse expanded
               | _ :: _ => url_parse_with_params expanded query_params
               end in
      match u with
      | Some u => Ok u
      | None => Err UrlParseError
      end
  end.

(** The store: [db.link.get(short)] yields the link's [long] pattern
    when found, [db.stats.incr(short)] updates the store and reports
    success. *)
Variable Store : Type.
Variable link_get : Store -> string -> option string.
Variable stats_incr : Store -> string -> Store * bool.
(** [location.parse::<warp::http::Uri>()] succeeds. *)
Variable uri_ok : string -> bool.

(** [redirect_with_status]: its [unwrap] panics ([None]) on a location
    [http::Uri] rejects. *)
Definition redirect_with_status (loc : string) (code : nat) : option reply :=
  if uri_ok loc then Some (Redirect loc code) else None.

(** [Renderer::get]: the reply ([None] when building it panics, which
    ends the request), the store calls and log records, and the store. *)
Definition renderer_get (st : Store) (short full_path : string)
    (query_params : list (string * string)) : option reply * list event * Store :=
  let (reply, logs) :=
    match link_get st short with
    | Some long =>
        let path := path_remainder full_path short in
        match renderer_expand_link path query_params long with
        | Err e => (redirect_with_status "/" 500, [Logged e])
        | Ok location => (redirect_with_status (url_to_string location) 308, [])
        end
    | None => (redirect_with_status "/" 404, [])
    end in
  match reply with
  | None => (None, LinkGet short :: logs, st)
  | Some r =>
      (* incr click stats for short *)
      let (st', ok) := stats_incr st short in
      (Some r, (LinkGet short :: logs ++ [StatsIncr short ok])%list, st')
  end.

End Renderer.

(** ** [match_string], the [match] helper of both registries

    [Regex] is the [regex] crate: compilation of a pattern, which may
    fail, and matching. *)

Section MatchHelper.

Variable Regex : Type.
Variable regex_try_from : string -> option Regex.
Variable is_match : Regex -> string -> bool.

Definition match_string (pattern path : string) : bool :=
  match regex_try_from pattern with
  | Some r => is_match r path
  | None => false
  end.

End MatchHelper.

(** * Properties *)

(** ** Lemmas on the string primitives *)

Lemma str_app_nil (s : string) : s ++ "" = s.
Proof. induction s as [|c s IH]; simpl; [reflexivity | now rewrite IH]. Qed.

Lemma str_app_assoc (a b c : string) : (a ++ b) ++ c = a ++ (b ++ c).
Proof. induction a as [|x a IH]; simpl; [reflexivity | now rewrite IH]. Qed.

Lemma str_length_app (a b : string) :
  String.length (a ++ b) = String.length a + String.length b.
Proof. induction a as [|x a IH]; simpl; [reflexivity | now rewrite IH]. Qed.

Lemma take_app (a b : string) (k : nat) :
  take (String.length a + k) (a ++ b) = a ++ take k b.
Proof. induction a as [|x a IH]; simpl; [reflexivity | now rewrite IH]. Qed.

Lemma drop_app (a b : string) (k : nat) :
  drop (String.length a + k) (a ++ b) = drop k b.
Proof. induction a as [|x a IH]; simpl; [reflexivity | exact IH]. Qed.

Lemma take_length (s : string) (i : nat) :
  i <= String.length s -> String.length (take i s) = i.
Proof.
  revert i; induction s as [|c s IH]; intros [|i] Hi; simpl in *; try lia.
  rewrite IH; lia.
Qed.

Lemma starts_with_app (p t : string) : starts_with p (p ++ t) = true.
Proof. induction p as [|c p IH]; simpl; [reflexivity | now rewrite Ascii.eqb_refl, IH]. Qed.

Lemma starts_with_true (p s : string) :
  starts_with p s = true -> s = p ++ drop (String.length p) s.
Proof.
  revert s; induction p as [|c p IH]; intros [|d s] H; simpl in *; try easy.
  apply andb_prop in H as [Hc Hp].
  apply Ascii.eqb_eq in Hc; subst d.
  now rewrite <- (IH s Hp).
Qed.

Lemma find_some_split (s n : string) (i : nat) :
  find s n = Some i ->
  s = take i s ++ n ++ drop (i + String.length n) s /\ i <= String.length s.
Proof.
  revert i; induction s as [|c s IH]; intros i H; simpl in H.
  - destruct (starts_with n "") eqn:E; [|discriminate].
    injection H as <-. simpl.
    split; [now apply starts_with_true | lia].
  - destruct (starts_with n (String c s)) eqn:E.
    + injection H as <-. simpl.
      split; [now apply starts_with_true | lia].
    + destruct (find s n) as [i'|] eqn:F; simpl in H; [|discriminate].
      injection H as <-.
      destruct (IH i' eq_refl) as [Hs Hl].
      simpl. split; [|lia].
      now rewrite <- Hs.
Qed.

Lemma find_first (s n pre post : string) (i : nat) :
  find s n = Some i -> s = pre ++ n ++ post -> i <= String.length pre.
Proof.
  revert pre i; induction s as [|c s IH]; intros pre i H Hs.
  - simpl in H. destruct (starts_with n ""); [|discriminate].
    injection H as <-. lia.
  - simpl in H. destruct (starts_with n (String c s)) eqn:E.
    + injection H as <-. lia.
    + destruct pre as [|d pre].
      * simpl in Hs. rewrite Hs, starts_with_app in E. discriminate.
      * simpl in Hs. injection Hs as <- Hs.
        destruct (find s n) as [i'|] eqn:F; simpl in H; [|discriminate].
        injection H as <-. simpl.
        specialize (IH pre i' eq_refl Hs). lia.
Qed.

Lemma find_none (s n pre post : string) :
  find s n = None -> s <> pre ++ n ++ post.
Proof.
  revert s; induction pre as [|d pre IH]; intros s H Hs.
  - simpl in Hs. subst s.
    destruct (n ++ post) eqn:E; simpl in H;
      rewrite <- E, starts_with_app in H; discriminate.
  - simpl in Hs. subst s. simpl in H.
    destruct (starts_with n (String d (pre ++ n ++ post))); [discriminate|].
    destruct (find (pre ++ n ++ post) n) eqn:F; simpl in H; [discriminate|].
    exact (IH _ F eq_refl).
Qed.


Lemma replace_char_app (c : ascii) (r a b : string) :
  replace_char c r (a ++ b) = replace_char c r a ++ replace_char c r b.
Proof.
  induction a as [|d a IH]; simpl; [reflexivity|].
  destruct (Ascii.eqb d c); rewrite IH; [now rewrite str_app_assoc | reflexivity].
Qed.

Lemma find_replace_hyphen (s : string) : find (replace_char "-" "to" s) "-" = None.
Proof.
  induction s as [|d s IH]; [reflexivity|].
  cbn [replace_char]. destruct (Ascii.eqb d "-") eqn:E.
  - cbn. rewrite IH. reflexivity.
  - cbn [find starts_with]. rewrite Ascii.eqb_sym, E. cbn. rewrite IH. reflexivity.
Qed.

Lemma contains_hyphen_cons (c : ascii) (s : string) :
  contains (String c s) "-" = false -> c <> "-"%char /\ contains s "-" = false.
Proof.
  unfold contains; cbn [find starts_with].
  destruct (Ascii.eqb "-" c) eqn:E; cbn; [discriminate|].
  intros H; split.
  - intros ->. discriminate E.
  - destruct (find s "-"); [discriminate | reflexivity].
Qed.

Lemma encode_byte_no_hyphen (c : ascii) :
  c <> "-"%char -> replace_char "-" "to" (encode_byte c) = encode_byte c.
Proof.
  destruct c as [[] [] [] [] [] [] [] []]; intros H;
    first [reflexivity | exfalso; apply H; reflexivity].
Qed.

(** ** C2: [Renderer::path_remainder] *)

(** The slug after its leading [/] is ensured. *)
Definition slash_slug (short_slug : string) : string :=
  if starts_with "/" short_slug then short_slug else "/" ++ short_slug.

(** C2 (counterexample): after excising [/nyt] from [/nyt/sports/article]
    the result [/sports/article] starts with [/], and it is returned as it
    is; no leading [/] is stripped. *)
Lemma path_remainder_no_strip :
  starts_with "/" (path_remainder "/nyt/sports/article" "nyt") = true
  /\ path_remainder "/nyt/sports/article" "nyt" = "/sports/article"
  /\ path_remainder "/nyt/sports/article" "nyt" <> "sports/article".
Proof. split; [reflexivity | split; [reflexivity | discriminate]]. Qed.

(** C2 (amended): the slug, with a [/] put in front when it has none, is
    excised once at its first occurrence in [full_path] and the text
    before and after it is concatenated, with nothing further stripped;
    when the slug does not occur, [full_path] is returned unchanged. *)
Theorem path_remainder_excises_first (full_path short_slug : string) :
  let slug := slash_slug short_slug in
  (exists pre post,
      full_path = pre ++ slug ++ post
      /\ (forall pre' post', full_path = pre' ++ slug ++ post' ->
                             String.length pre <= String.length pre')
      /\ path_remainder full_path short_slug = pre ++ post)
  \/ ((forall pre post, full_path <> pre ++ slug ++ post)
      /\ path_remainder full_path short_slug = full_path).
Proof.
  intros slug.
  unfold path_remainder. fold (slash_slug short_slug). fold slug.
  destruct (find full_path slug) as [i|] eqn:F.
  - left.
    destruct (find_some_split full_path slug i F) as [Hs Hi].
    exists (take i full_path), (drop (i + String.length slug) full_path).
    split; [exact Hs|]. split; [|reflexivity].
    intros pre' post' H'.
    rewrite take_length by exact Hi.
    exact (find_first full_path slug pre' post' i F H').
  - right. split; [|reflexivity].
    intros pre post. exact (find_none full_path slug pre post F).
Qed.

(** ** C3: [normalized_id] *)

(** C3: the lookup key is the percent-encoding of the short code with
    every hyphen of the encoded text then replaced by [to]; the key has no
    hyphen left, a code without hyphens maps to its plain encoding, the
    empty code maps to the empty key, and the two documented examples
    hold. *)
Theorem normalized_id_encode_then_replace :
  (forall s, normalized_id s = replace_char "-" "to" (encode s))
  /\ (forall s, contains (normalized_id s) "-" = false)
  /\ (forall s, contains s "-" = false -> normalized_id s = encode s)
  /\ normalized_id "" = ""
  /\ normalized_id "hello-world" = "hellotoworld"
  /\ normalized_id "rust-lang/book" = "rusttolang%2Fbook".
Proof.
  split; [reflexivity|]. split.
  { intros s. unfold contains, normalized_id. now rewrite find_replace_hyphen. }
  split.
  { unfold normalized_id.
    induction s as [|c s IH]; [reflexivity|].
    intros H. apply contains_hyphen_cons in H as [Hc Hs].
    simpl. rewrite replace_char_app, encode_byte_no_hyphen by exact Hc.
    now rewrite IH. }
  repeat split; reflexivity.
Qed.

(** ** C8 *)

(** C8: [normalized_id] is not injective: [a-b] and [atob] are distinct
    short codes with the same lookup key. *)
Theorem normalized_id_not_injective :
  "a-b" <> "atob" /\ normalized_id "a-b" = normalized_id "atob"
  /\ normalized_id "atob" = "atob".
Proof. split; [discriminate | split; reflexivity]. Qed.

(** ** Rendering the templates [with_path] synthesises *)

Lemma take_drop (k : nat) (s : string) : take k s ++ drop k s = s.
Proof.
  revert k; induction s as [|c s IH]; intros [|k]; simpl; try reflexivity.
  now rewrite IH.
Qed.








(** ** C1: effective template selection *)

(** C1: for a pattern without the placeholder marker [{{] and a non-empty
    remainder the effective template is the pattern followed by
    [{{path}}], with a [/] in between unless the pattern already ends in
    [/]; otherwise it is the pattern itself.  The documented literal-append
    examples render accordingly. *)
Theorem with_path_effective_template (path long : string) :
  (contains long "{{" = false -> path <> "" -> ends_with "/" long = true ->
   with_path path long = long ++ "{{path}}")
  /\ (contains long "{{" = false -> path <> "" -> ends_with "/" long = false ->
      with_path path long = long ++ "/" ++ "{{path}}")
  /\ (contains long "{{" = true \/ path = "" -> with_path path long = long)
  /\ expand "extra" "http://host.com/foo" = Some "http://host.com/foo/extra"
  /\ expand "extra" "http://host.com/foo/" = Some "http://host.com/foo/extra".
Proof.
  unfold with_path.
  split; [|split; [|split; [|split; reflexivity]]].
  - intros Hc Hp He. rewrite Hc, He.
    destruct path; [contradiction|reflexivity].
  - intros Hc Hp He. rewrite Hc, He.
    destruct path; [contradiction|reflexivity].
  - intros [Hc | ->].
    + now rewrite Hc.
    + now destruct (contains long "{{").
Qed.

(** ** C4: literal text of a pattern is never re-encoded *)









(** ** Query components: single-character search and decoding *)

Fixpoint has_char (c : ascii) (s : string) : bool :=
  match s with
  | EmptyString => false
  | String d s' => Ascii.eqb d c || has_char c s'
  end.

Lemma has_char_app (c : ascii) (a b : string) :
  has_char c (a ++ b) = has_char c a || has_char c b.
Proof. induction a as [|d a IH]; simpl; [reflexivity|]. now rewrite IH, orb_assoc. Qed.

Lemma find_char_cons (c d : ascii) (s : string) :
  find (String d s) (String c "") =
  if Ascii.eqb c d then Some 0 else option_map S (find s (String c "")).
Proof. cbn [find starts_with]. now rewrite andb_true_r. Qed.





Lemma replace_char_absent (c : ascii) (r s : string) :
  has_char c s = false -> replace_char c r s = s.
Proof.
  induction s as [|d s IH]; intros H; [reflexivity|].
  simpl in H. apply orb_false_iff in H as [Hd Hs].
  simpl. rewrite Hd, IH by exact Hs. reflexivity.
Qed.

(** Bytes the encoder never emits. *)
Lemma encode_byte_reserved (c : ascii) :
  has_char "&" (encode_byte c) = false /\ has_char "=" (encode_byte c) = false
  /\ has_char "+" (encode_byte c) = false /\ has_char "#" (encode_byte c) = false
  /\ has_char "?" (encode_byte c) = false.
Proof. destruct c as [[] [] [] [] [] [] [] []]; repeat split; reflexivity. Qed.

Lemma encode_reserved (x : ascii) (s : string) :
  In x ["&"; "="; "+"; "#"; "?"]%char -> has_char x (encode s) = false.
Proof.
  intros Hx. induction s as [|c s IH]; [reflexivity|].
  simpl. rewrite has_char_app, IH, orb_false_r.
  destruct (encode_byte_reserved c) as (H1 & H2 & H3 & H4 & H5).
  simpl in Hx. intuition congruence.
Qed.

Lemma percent_decode_encode_byte (c : ascii) (rest : string) :
  percent_decode (encode_byte c ++ rest) = String c (percent_decode rest).
Proof. destruct c as [[] [] [] [] [] [] [] []]; reflexivity. Qed.

Lemma decode_encode (s : string) : decode_component (encode s) = s.
Proof.
  unfold decode_component.
  rewrite replace_char_absent by (apply encode_reserved; simpl; tauto).
  induction s as [|c s IH]; [reflexivity|].
  simpl. now rewrite percent_decode_encode_byte, IH.
Qed.

Lemma split_on_nonempty (c : ascii) (s : string) : exists x xs, split_on c s = x :: xs.
Proof.
  induction s as [|d s [x [xs IH]]]; simpl; [eauto|].
  destruct (Ascii.eqb d c); [eauto|]. rewrite IH. eauto.
Qed.









Lemma find_char_none_absent (c : ascii) (s : string) :
  find s (String c "") = None -> has_char c s = false.
Proof.
  induction s as [|d s IH]; intros H; [reflexivity|].
  rewrite find_char_cons in H.
  destruct (Ascii.eqb c d) eqn:E; [discriminate|].
  destruct (find s (String c "")) eqn:F; [discriminate|].
  simpl. rewrite Ascii.eqb_sym, E, IH; reflexivity.
Qed.


(** ** C6: query merge *)




(** ** C5: no query parameters *)

(** C5: without query parameters [Renderer::expand_link] parses the
    rendered string with [Url::parse]: it returns the parsed URL when the
    parse succeeds and an error when it fails, and every URL it returns
    is the parse of the rendered string. *)
Theorem renderer_expand_link_parses (Url : Type) (url_parse : string -> option Url)
    (url_parse_with_params : string -> list (string * string) -> option Url)
    (path long : string) :
  (forall expanded, expand path long = Some expanded ->
     (forall u, url_parse expanded = Some u ->
        renderer_expand_link Url url_parse url_parse_with_params path [] long = Ok u)
     /\ (url_parse expanded = None ->
        renderer_expand_link Url url_parse url_parse_with_params path [] long
        = Err UrlParseError))
  /\ (forall u,
        renderer_expand_link Url url_parse url_parse_with_params path [] long = Ok u ->
        exists expanded, expand path long = Some expanded /\ url_parse expanded = Some u).
Proof.
  unfold renderer_expand_link, expand.
  split.
  - intros expanded He. rewrite He. split.
    + intros u Hu. now rewrite Hu.
    + intros Hu. now rewrite Hu.
  - intros u H.
    destruct (render_template no_helpers (with_path path long) path) as [expanded|]; [|discriminate].
    exists expanded. split; [reflexivity|].
    destruct (url_parse expanded); [now injection H as ->|discriminate].
Qed.

(** ** C7 and C9: [Renderer::get] *)

Definition is_incr (e : event) : bool :=
  match e with StatsIncr _ _ => true | _ => false end.

(** The events of a trace other than increments. *)
Definition without_incr (evs : list event) : list event :=
  filter (fun e => negb (is_incr e)) evs.


(** The form checks of [http::Uri]'s parser: an origin-form path, [*], an
    absolute URI whose scheme is followed by [://], or else an authority
    alone (no [/], [?] or [#]); the byte-level checks are left out. *)
Definition uri_form_ok (s : string) : bool :=
  match s with
  | EmptyString => false
  | String c _ =>
      Ascii.eqb c "/" || String.eqb s "*" || contains s "://"
      || negb (has_char "/" s || has_char "?" s || has_char "#" s)
  end.

(** A link table with a [mailto:] link under [m] and a web link under
    [e]; [Url::parse] accepts both and serialises them unchanged. *)
Definition get_demo_links (_ : unit) (short : string) : option string :=
  if String.eqb short "m" then Some "mailto:a@b.com?subject=x"
  else if String.eqb short "e" then Some "https://example.com/"
  else None.

Definition failing_incr (st : unit) (_ : string) : unit * bool := (st, false).

(** C7 (counterexample): the increment fails and the request logs
    nothing: [Renderer::get] drops the increment's result with [let _]. *)
Lemma get_incr_failure_not_logged :
  renderer_get string (fun u => u) (fun s => Some s) (fun s _ => Some s) unit
    get_demo_links failing_incr uri_form_ok tt "e" "/e" []
  = (Some (Redirect "https://example.com/" 308), [LinkGet "e"; StatsIncr "e" false], tt)
  /\ ~ exists e, In (Logged e) [LinkGet "e"; StatsIncr "e" false].
Proof.
  split; [vm_compute; reflexivity|].
  intros [e [H | [H | []]]]; discriminate H.
Qed.

(** C7 (amended): the increment's outcome is discarded: the reply, and
    every store call and log record other than the increment, are the
    same whether the increment succeeds or fails, and the increment is
    the last step of the request, with no log record after it. *)
Theorem get_reply_independent_of_incr (Url : Type) (url_to_string : Url -> string)
    (url_parse : string -> option Url)
    (url_parse_with_params : string -> list (string * string) -> option Url)
    (Store : Type) (link_get : Store -> string -> option string)
    (incr1 incr2 : Store -> string -> Store * bool) (uri_ok : string -> bool)
    (st : Store) (short full_path : string) (query_params : list (string * string)) :
  let r1 := renderer_get Url url_to_string url_parse url_parse_with_params Store
              link_get incr1 uri_ok st short full_path query_params in
  let r2 := renderer_get Url url_to_string url_parse url_parse_with_params Store
              link_get incr2 uri_ok st short full_path query_params in
  fst (fst r1) = fst (fst r2)
  /\ without_incr (snd (fst r1)) = without_incr (snd (fst r2))
  /\ snd (fst r1)
     = (without_incr (snd (fst r1))
        ++ match fst (fst r1) with
           | Some _ => [StatsIncr short (snd (incr1 st short))]
           | None => []
           end)%list.
Proof.
  cbv zeta. unfold renderer_get.
  destruct (match link_get st short with
            | Some long => _ | None => _ end) as [[reply|] logs] eqn:E.
  - destruct (incr1 st short) as [st1 ok1]. destruct (incr2 st short) as [st2 ok2].
    cbn [fst snd].
    assert (Hl : without_incr logs = logs).
    { destruct (link_get st short); [destruct (renderer_expand_link _ _ _ _ _ _)|];
        injection E as _ <-; reflexivity. }
    unfold without_incr in *. cbn [filter is_incr negb].
    rewrite !filter_app, Hl. cbn [filter is_incr negb].
    rewrite !app_nil_r. split; [reflexivity | split; reflexivity].
  - cbn [fst snd].
    assert (Hl : without_incr logs = logs).
    { destruct (link_get st short); [destruct (renderer_expand_link _ _ _ _ _ _)|];
        injection E as _ <-; reflexivity. }
    unfold without_incr in *. cbn [filter is_incr negb]. rewrite Hl, app_nil_r.
    split; [reflexivity | split; reflexivity].
Qed.



(** ** C10: the [match] helper *)

(** C10: [match] yields [false] for a pattern that does not compile, and
    [true] only when the pattern compiles and matches the subject. *)
Theorem match_string_total (Regex : Type) (regex_try_from : string -> option Regex)
    (is_match : Regex -> string -> bool) (pattern path : string) :
  (regex_try_from pattern = None ->
   match_string Regex regex_try_from is_match pattern path = false)
  /\ (match_string Regex regex_try_from is_match pattern path = true ->
      exists r, regex_try_from pattern = Some r /\ is_match r path = true).
Proof.
  unfold match_string. split.
  - intros H. now rewrite H.
  - destruct (regex_try_from pattern) as [r|]; [|discriminate].
    intros H. now exists r.
Qed.

(** * Further properties of the code *)

(** ** The [trimprefix] / [trimsuffix] helpers (src/render.rs, src/handlers.rs) *)

(** [s.strip_prefix(p)] *)
Definition strip_prefix (p s : string) : option string :=
  if starts_with p s then Some (drop (String.length p) s) else None.

(** [s.strip_suffix(suf)] *)
Definition strip_suffix (suf s : string) : option string :=
  if ends_with suf s then Some (take (String.length s - String.length suf) s) else None.

Definition trim_prefix (path prefix : string) : string :=
  match strip_prefix prefix path with Some result => result | None => path end.

Definition trim_suffix (path suffix : string) : string :=
  match strip_suffix suffix path with Some result => result | None => path end.

(** ** src/handlers.rs: [path_remainder] *)

Definition handlers_path_remainder (full_path : string) : string :=
  let path_tokens := split_on "/" full_path in
  if Nat.ltb 1 (List.length path_tokens) then String.concat "/" (tl path_tokens)
  else EmptyString.

Example handlers_path_remainder_ex : handlers_path_remainder "/foo/bar" = "foo/bar".
Proof. reflexivity. Qed.
Example trim_suffix_ex : trim_suffix "hello.html" ".html" = "hello".
Proof. reflexivity. Qed.

(** Every byte satisfies [f]. *)
Fixpoint all_chars (f : ascii -> bool) (s : string) : bool :=
  match s with
  | EmptyString => true
  | String c s' => f c && all_chars f s'
  end.

Lemma find_starts (n s : string) : starts_with n s = true -> find s n = Some 0.
Proof. destruct s; simpl; intros ->; reflexivity. Qed.

Lemma str_concat_cons (sep x : string) (xs : list string) :
  String.concat sep (x :: xs)
  = x ++ match xs with [] => EmptyString | _ :: _ => sep ++ String.concat sep xs end.
Proof. destruct xs; simpl; [now rewrite str_app_nil | reflexivity]. Qed.

Lemma concat_split_on (c : ascii) (s : string) :
  String.concat (String c EmptyString) (split_on c s) = s.
Proof.
  induction s as [|d s IH]; [reflexivity|].
  simpl split_on. destruct (Ascii.eqb d c) eqn:E.
  - apply Ascii.eqb_eq in E. subst d.
    rewrite str_concat_cons. destruct (split_on_nonempty c s) as [x [xs Hs]].
    rewrite IH, Hs. reflexivity.
  - destruct (split_on_nonempty c s) as [x [xs Hs]]. rewrite Hs.
    rewrite str_concat_cons. rewrite Hs, str_concat_cons in IH.
    change (String d x ++ ?Y) with (String d (x ++ Y)). now rewrite IH.
Qed.

(** X1: [trimprefix] removes the prefix exactly when the path starts with
    it and otherwise returns the path unchanged; on [p ++ s] it yields [s]. *)
Theorem trim_prefix_spec (path prefix s : string) :
  (starts_with prefix path = true -> prefix ++ trim_prefix path prefix = path)
  /\ (starts_with prefix path = false -> trim_prefix path prefix = path)
  /\ trim_prefix (prefix ++ s) prefix = s.
Proof.
  unfold trim_prefix, strip_prefix. split; [|split].
  - intros H. rewrite H. symmetry. now apply starts_with_true.
  - intros H. now rewrite H.
  - rewrite starts_with_app. rewrite <- (Nat.add_0_r (String.length prefix)).
    now rewrite drop_app.
Qed.

(** X2: [trimsuffix] removes the suffix exactly when the path ends with
    it and otherwise returns the path unchanged; on [s ++ suf] it yields
    [s]. *)
Theorem trim_suffix_spec (path suffix s : string) :
  (ends_with suffix path = true -> trim_suffix path suffix ++ suffix = path)
  /\ (ends_with suffix path = false -> trim_suffix path suffix = path)
  /\ trim_suffix (s ++ suffix) suffix = s.
Proof.
  unfold trim_suffix, strip_suffix. split; [|split].
  - intros H. rewrite H. unfold ends_with in H.
    apply andb_prop in H as [_ H]. apply String.eqb_eq in H.
    rewrite <- H at 2. apply take_drop.
  - intros H. now rewrite H.
  - assert (Hk : String.length (s ++ suffix) - String.length suffix
                 = String.length s + 0) by (rewrite str_length_app; lia).
    assert (He : ends_with suffix (s ++ suffix) = true).
    { unfold ends_with. rewrite Hk, drop_app, String.eqb_refl, str_length_app.
      apply andb_true_intro. split; [apply Nat.leb_le; lia | reflexivity]. }
    rewrite He, Hk, take_app. apply str_app_nil.
Qed.

(** X3: the legacy [handlers::path_remainder] returns the text after the
    first [/] of the path, and the empty string when there is none; in
    particular on a routed path ["/" ++ s] it returns all of [s], short
    code included. *)
Theorem handlers_path_remainder_after_first_slash (full_path : string) :
  handlers_path_remainder full_path
  = match find full_path "/" with Some i => drop (i + 1) full_path | None => EmptyString end
  /\ handlers_path_remainder ("/" ++ full_path) = full_path.
Proof.
  assert (Hgen : forall s, handlers_path_remainder s
    = match find s "/" with Some i => drop (i + 1) s | None => EmptyString end).
  { induction s as [|d s IH]; [reflexivity|].
    unfold handlers_path_remainder in *. simpl split_on.
    rewrite find_char_cons.
    destruct (Ascii.eqb d "/") eqn:E.
    - rewrite Ascii.eqb_sym, E.
      destruct (split_on_nonempty "/" s) as [x [xs Hs]].
      pose proof (concat_split_on "/" s) as Hc. rewrite Hs in Hc.
      rewrite Hs. simpl. exact Hc.
    - rewrite Ascii.eqb_sym, E.
      destruct (split_on_nonempty "/" s) as [x [xs Hs]].
      rewrite Hs in *. cbn [tl List.length] in *. rewrite IH.
      destruct (find s "/"); reflexivity. }
  split; [apply Hgen|].
  rewrite Hgen. reflexivity.
Qed.

(** ** [urlencoding::encode] and [normalized_id] *)

Lemma encode_byte_avoids_not_hyphen (c : ascii) :
  forallb (fun x => negb (has_char x (encode_byte c)))
          ["/"; "?"; "#"; "&"; "="; "+"; " "]%char = true.
Proof. destruct c as [[] [] [] [] [] [] [] []]; reflexivity. Qed.

Lemma has_char_replace_hyphen (x : ascii) (s : string) :
  x <> "t"%char -> x <> "o"%char ->
  has_char x (replace_char "-" "to" s) = has_char x s && negb (Ascii.eqb x "-").
Proof.
  intros Ht Ho. induction s as [|d s IH]; simpl; [reflexivity|].
  destruct (Ascii.eqb_spec d "-") as [->|Hd].
  - cbn [String.append has_char]. rewrite IH.
    destruct (Ascii.eqb_spec "t" x); [congruence|].
    destruct (Ascii.eqb_spec "o" x); [congruence|].
    destruct (Ascii.eqb_spec "-" x) as [<-|Hx]; simpl;
      [now rewrite andb_false_r|].
    destruct (Ascii.eqb_spec x "-"); [congruence|]. reflexivity.
  - cbn [has_char]. rewrite IH.
    destruct (Ascii.eqb_spec d x) as [->|]; simpl; [|reflexivity].
    destruct (Ascii.eqb_spec x "-"); [congruence|]. reflexivity.
Qed.

(** X4: decoding (percent-decoding after turning [+] into a space, as
    [form_urlencoded] does) inverts [urlencoding::encode], so the encoder
    is injective. *)
Theorem encode_round_trip (s t : string) :
  decode_component (encode s) = s /\ (encode s = encode t -> s = t).
Proof.
  split; [apply decode_encode|].
  intros H. rewrite <- (decode_encode s), <- (decode_encode t). now rewrite H.
Qed.

(** X5: a lookup key never contains [/], [?], [#], [&], [=], [+], a space
    or a hyphen, whatever the short code. *)
Theorem normalized_id_avoids (s : string) :
  forallb (fun x => negb (has_char x (normalized_id s)))
          ["/"; "?"; "#"; "&"; "="; "+"; " "; "-"]%char = true.
Proof.
  assert (Henc : forall x, In x ["/"; "?"; "#"; "&"; "="; "+"; " "]%char ->
                 has_char x (encode s) = false).
  { intros x Hx. induction s as [|c s IH]; [reflexivity|].
    simpl. rewrite has_char_app, IH, orb_false_r.
    pose proof (encode_byte_avoids_not_hyphen c) as Hc.
    rewrite forallb_forall in Hc. specialize (Hc x Hx).
    now apply negb_true_iff in Hc. }
  unfold normalized_id.
  assert (Hh : has_char "-" (replace_char "-" "to" (encode s)) = false).
  { apply find_char_none_absent, find_replace_hyphen. }
  cbn [forallb]. rewrite Hh.
  rewrite !has_char_replace_hyphen by discriminate.
  rewrite !Henc by (simpl; tauto). reflexivity.
Qed.

(** X6: a short code made only of ASCII letters, digits, [.], [_] and [~]
    is its own lookup key. *)
Theorem normalized_id_fixed (s : string) :
  all_chars (fun c => unreserved c && negb (Ascii.eqb c "-")) s = true ->
  normalized_id s = s.
Proof.
  unfold normalized_id. intros H.
  assert (He : encode s = s /\ has_char "-" s = false).
  { induction s as [|c s IH]; [split; reflexivity|].
    simpl in H. apply andb_prop in H as [Hc Hs].
    apply andb_prop in Hc as [Hu Hn].
    destruct (IH Hs) as [IH1 IH2].
    simpl. unfold encode_byte. rewrite Hu. simpl. rewrite IH1, IH2.
    rewrite orb_false_r. split; [reflexivity|]. now apply negb_true_iff. }
  destruct He as [He Hh]. rewrite He. now apply replace_char_absent.
Qed.

Lemma normalized_id_fixed_witness :
  all_chars (fun c => unreserved c && negb (Ascii.eqb c "-")) "nyt.sports_v2~" = true
  /\ normalized_id "nyt.sports_v2~" = "nyt.sports_v2~".
Proof.
  split; [reflexivity|]. apply normalized_id_fixed. reflexivity.
Defined.

(** ** [Renderer::path_remainder] on routed paths *)

(** X7: on a routed path ["/" ++ short ++ rest] (the [FullPath] warp hands
    to [Renderer::get] for the path parameter [short], which has no leading
    [/]), the remainder is [rest]. *)
Theorem path_remainder_routed (short rest : string) :
  starts_with "/" short = false ->
  path_remainder ("/" ++ short ++ rest) short = rest.
Proof.
  intros Hs. unfold path_remainder. rewrite Hs.
  rewrite find_starts.
  - cbn [take]. rewrite <- (Nat.add_0_r (0 + String.length ("/" ++ short))).
    cbn [Nat.add]. rewrite <- str_app_assoc, drop_app. reflexivity.
  - rewrite <- str_app_assoc. apply starts_with_app.
Qed.

Lemma path_remainder_routed_witness :
  starts_with "/" "nyt" = false
  /\ path_remainder ("/" ++ "nyt" ++ "/sports/article") "nyt" = "/sports/article".
Proof. split; [reflexivity | apply path_remainder_routed; reflexivity]. Defined.

(** X8: the remainder is never longer than the request path; it is
    strictly shorter whenever the slug occurs in it. *)
Theorem path_remainder_shorter (full_path short_slug : string) :
  String.length (path_remainder full_path short_slug) <= String.length full_path
  /\ (contains full_path (slash_slug short_slug) = true ->
      String.length (path_remainder full_path short_slug) < String.length full_path).
Proof.
  unfold path_remainder, contains. fold (slash_slug short_slug).
  assert (Hpos : 0 < String.length (slash_slug short_slug)).
  { unfold slash_slug. destruct (starts_with "/" short_slug) eqn:E.
    - destruct short_slug; [discriminate | simpl; lia].
    - simpl; lia. }
  destruct (find full_path (slash_slug short_slug)) as [i|] eqn:F.
  - destruct (find_some_split _ _ i F) as [Hs Hi].
    assert (Hl := f_equal String.length Hs).
    rewrite !str_length_app in Hl.
    rewrite str_length_app. split; [lia | intros _; lia].
  - split; [lia | discriminate].
Qed.

(** ** Handlebars' HTML escape of injected values *)

Lemma html_escape_char_safe (c : ascii) :
  forallb (fun x => negb (has_char x (html_escape (String c EmptyString))))
          ["<"; ">"; ascii_of_nat 34; "'"; "`"; "="]%char = true.
Proof. destruct c as [[] [] [] [] [] [] [] []]; reflexivity. Qed.

(** X9: a value rendered through [{{path}}] never contains [<], [>], a
    double or single quote, a backtick or [=]. *)
Theorem html_escape_safe (s : string) :
  forallb (fun x => negb (has_char x (html_escape s)))
          ["<"; ">"; ascii_of_nat 34; "'"; "`"; "="]%char = true.
Proof.
  apply forallb_forall. intros x Hx. apply negb_true_iff.
  induction s as [|c s IH]; [reflexivity|].
  assert (Hcons : html_escape (String c s)
                  = html_escape (String c EmptyString) ++ html_escape s).
  { cbn [html_escape]. now rewrite str_app_nil. }
  rewrite Hcons, has_char_app, IH, orb_false_r.
  pose proof (html_escape_char_safe c) as Hc.
  rewrite forallb_forall in Hc. now apply negb_true_iff, Hc.
Qed.

(** ** Link management: [Renderer::create], [Renderer::new_link],
    [Renderer::delete] (src/render.rs) and [handlers::create]
    (src/handlers.rs)

    A link keeps the fields the handlers read or write; the [created] and
    [updated] timestamps come from the clock and are left out.  The link
    table is a parameter; [get_all] failing is [None], on which the code's
    [unwrap] panics.  src/render.rs reads a link's id as a [Uuid] (kept
    here as its text) and builds its [CreateUpdateRequest] without an
    owner; the conversion [request.into()] it relies on for that link
    type is not the one of src/lib.rs, so the Renderer's conversion is a
    parameter [into_link]. *)

Record link : Type :=
  Link { id : string; short : string; long : string; owner : option string }.

(** [impl Into<model::Link> for CreateUpdateRequest] (src/lib.rs). *)
Definition request_into (req_short req_target : string) (req_owner : option string)
    : link :=
  Link (normalized_id req_short) req_short req_target req_owner.

Inductive response : Type :=
| RRedirect (loc : string)                      (* warp::redirect, 301 *)
| RStatus (code : nat)                          (* a bare status *)
| RMessage (msg : string) (code : nat)          (* [response(msg, code)] *)
| RJson (l : link) (code : nat)
| RJsonAt (l : link) (code : nat) (loc : string) (* with a Location header *)
| RPanic.

Inductive crud_event : Type :=
| CGetAll
| CInsert (l : link)
| CGetById (i : string)
| CDelete (i : string).

Section Crud.

Variable Store : Type.
(** [self.xsrf()] *)
Variable token : string.
Variable get_all : Store -> option (list link).
(** [db.link.insert]: the new row's id, or an error message. *)
Variable insert : Store -> link -> Store * result string string.
Variable get_by_id : Store -> string -> result link string.
Variable delete_row : Store -> string -> Store * bool.
(** [request.into()] of src/render.rs, from the short code and target. *)
Variable into_link : string -> string -> link.

Definition renderer_create (st : Store) (req_short req_target xsrf : string)
    : response * list crud_event * Store :=
  if negb (String.eqb xsrf token) then (RRedirect "/", [], st)
  else
    match get_all st with
    | None => (RPanic, [CGetAll], st)
    | Some links =>
        if existsb (fun l => String.eqb req_short (short l)) links
        then (RStatus 400, [CGetAll], st)
        else
          let l := into_link req_short req_target in
          let (st', r) := insert st l in
          match r with
          | Ok new_id => (RRedirect "/", [CGetAll; CInsert l; CGetById new_id], st')
          | Err _ => (RRedirect "/", [CGetAll; CInsert l], st')
          end
    end.

Definition renderer_new_link (st : Store) (req_short req_target : string)
    : response * list crud_event * Store :=
  match get_all st with
  | None => (RPanic, [CGetAll], st)
  | Some links =>
      if existsb (fun l => String.eqb req_short (short l)) links
      then (RMessage "Link with short code already exists" 400, [CGetAll], st)
      else
        let l := into_link req_short req_target in
        let (st', r) := insert st l in
        match r with
        | Ok new_id =>
            match get_by_id st' new_id with
            | Ok saved => (RJson saved 201, [CGetAll; CInsert l; CGetById new_id], st')
            | Err e => (RMessage e 500, [CGetAll; CInsert l; CGetById new_id], st')
            end
        | Err e => (RMessage e 500, [CGetAll; CInsert l], st')
        end
  end.

Definition renderer_delete (st : Store) (link_id xsrf : string)
    : response * list crud_event * Store :=
  if negb (String.eqb xsrf token) then (RRedirect "/", [], st)
  else
    match get_all st with
    | None => (RPanic, [CGetAll], st)
    | Some links =>
        if negb (existsb (fun l => String.eqb (id l) link_id) links)
        then (RRedirect "/", [CGetAll], st)
        else
          let (st', ok) := delete_row st link_id in
          (if ok then RRedirect "/" else RRedirect ("/.detail/" ++ link_id),
           [CGetAll; CDelete link_id], st')
    end.

End Crud.

Section HandlersCreate.

Variable Store : Type.
(** [db.link.get_all()] of src/handlers.rs: a map from id to link, as its
    entries. *)
Variable get_all_map : Store -> option (list (string * link)).
Variable insert : Store -> link -> Store * result string string.
Variable link_get : Store -> string -> result link string.

Definition handlers_create (st : Store) (req_short req_target : string)
    (req_owner : option string) : response * list crud_event * Store :=
  match get_all_map st with
  | None => (RPanic, [CGetAll], st)
  | Some links =>
      let link_id := normalized_id req_short in
      if existsb (fun kv => String.eqb link_id (fst kv)) links
      then (RStatus 400, [CGetAll], st)
      else
        let l := request_into req_short req_target req_owner in
        let (st', r) := insert st l in
        match r with
        | Ok new_id =>
            match link_get st' new_id with
            | Ok saved => (RJsonAt saved 201 ("/" ++ short saved),
                           [CGetAll; CInsert l; CGetById new_id], st')
            | Err _ => (RStatus 500, [CGetAll; CInsert l; CGetById new_id], st')
            end
        | Err _ => (RStatus 500, [CGetAll; CInsert l], st')
        end
  end.

End HandlersCreate.

(** ** src/handlers.rs: [get] *)

Section HandlersGet.

Variable Store : Type.
Variable link_get : Store -> string -> option string.
(** [location.parse::<warp::http::Uri>()]; [false] makes [unwrap] panic. *)
Variable uri_ok : string -> bool.

Definition handlers_get (st : Store) (short_code full_path : string)
    (query_params : list (string * string)) : response * list event :=
  let link_id := normalized_id short_code in
  let reply :=
    match link_get st link_id with
    | Some long =>
        let path := handlers_path_remainder full_path in
        match handlers_expand_link path query_params long with
        | Some location => if uri_ok location then RRedirect location else RPanic
        | None => RStatus 500
        end
    | None => RStatus 404
    end in
  (reply, [LinkGet link_id]).

End HandlersGet.

(** ** src/routes.rs: the [get] filter's dispatch *)

Inductive get_route : Type :=
| ToJsonDetail (short_code : string)
| ToGet (short_code full_path : string).

Definition routes_get (short_code path_as_str : string) : get_route :=
  if ends_with "+" path_as_str then
    ToJsonDetail (match strip_suffix "+" short_code with
                  | Some trimmed => trimmed
                  | None => path_as_str
                  end)
  else ToGet short_code path_as_str.

(** ** Properties of link management *)

Lemma existsb_short_In (req_short : string) (links : list link) :
  existsb (fun l => String.eqb req_short (short l)) links = true
  <-> exists l, In l links /\ short l = req_short.
Proof.
  rewrite existsb_exists. split.
  - intros [l [Hin He]]. apply String.eqb_eq in He. now exists l.
  - intros [l [Hin He]]. exists l. split; [exact Hin|]. apply String.eqb_eq. now symmetry.
Qed.

Section CrudProps.

Variable Store : Type.
Variable token : string.
Variable get_all : Store -> option (list link).
Variable insert : Store -> link -> Store * result string string.
Variable get_by_id : Store -> string -> result link string.
Variable delete_row : Store -> string -> Store * bool.
Variable into_link : string -> string -> link.

(** X10: [Renderer::create] with a wrong XSRF token redirects to [/]
    without touching the link table. *)
Theorem renderer_create_xsrf_mismatch (st : Store) (req_short req_target xsrf : string)
    (Hx : xsrf <> token) :
  renderer_create Store token get_all insert into_link st req_short req_target xsrf
  = (RRedirect "/", [], st).
Proof.
  unfold renderer_create. apply String.eqb_neq in Hx. now rewrite Hx.
Qed.

(** X11: with the right XSRF token, [Renderer::create] answers 400 and
    inserts nothing when a stored link has the requested short code
    verbatim. *)
Theorem renderer_create_duplicate_short (st : Store) (links : list link)
    (l : link) (req_target : string)
    (Hall : get_all st = Some links) (Hin : In l links) :
  renderer_create Store token get_all insert into_link st (short l) req_target token
  = (RStatus 400, [CGetAll], st).
Proof.
  unfold renderer_create. rewrite String.eqb_refl, Hall. simpl negb. cbv iota.
  assert (E : existsb (fun l' => String.eqb (short l) (short l')) links = true)
    by (apply existsb_short_In; now exists l).
  now rewrite E.
Qed.

(** X12: with the right XSRF token and no stored link with the requested
    short code verbatim, [Renderer::create] inserts the converted request
    and redirects to [/], whatever the insert returns: only raw short
    codes are compared. *)
Theorem renderer_create_inserts_request (st : Store) (links : list link)
    (req_short req_target : string)
    (Hall : get_all st = Some links)
    (Hnew : Forall (fun l => short l <> req_short) links) :
  let '(r, evs, st') :=
    renderer_create Store token get_all insert into_link st req_short req_target token in
  r = RRedirect "/"
  /\ firstn 2 evs = [CGetAll; CInsert (into_link req_short req_target)]
  /\ st' = fst (insert st (into_link req_short req_target)).
Proof.
  unfold renderer_create. rewrite String.eqb_refl, Hall. simpl negb. cbv iota.
  assert (E : existsb (fun l => String.eqb req_short (short l)) links = false).
  { destruct (existsb _ links) eqn:E'; [|reflexivity].
    apply existsb_short_In in E' as [l [Hin Hs]].
    rewrite Forall_forall in Hnew. now destruct (Hnew l Hin). }
  rewrite E.
  destruct (insert st _) as [st' [new_id|e]]; repeat split.
Qed.

(** X19: [Renderer::new_link] needs no XSRF token; it answers 400 with the
    message [Link with short code already exists] and inserts nothing
    when a stored link has the requested short code verbatim. *)
Theorem renderer_new_link_duplicate_short (st : Store) (links : list link)
    (l : link) (req_target : string)
    (Hall : get_all st = Some links) (Hin : In l links) :
  renderer_new_link Store get_all insert get_by_id into_link st (short l) req_target
  = (RMessage "Link with short code already exists" 400, [CGetAll], st).
Proof.
  unfold renderer_new_link. rewrite Hall.
  assert (E : existsb (fun l' => String.eqb (short l) (short l')) links = true)
    by (apply existsb_short_In; now exists l).
  now rewrite E.
Qed.

(** X14: [Renderer::delete] deletes only the requested id, only with the
    right XSRF token and only when that id is among the stored links. *)
Theorem renderer_delete_guarded (st : Store) (link_id xsrf i : string)
    (Hdel : In (CDelete i) (snd (fst (renderer_delete Store token get_all delete_row st link_id xsrf)))) :
  i = link_id /\ xsrf = token
  /\ exists links, get_all st = Some links /\ In link_id (map id links).
Proof.
  unfold renderer_delete in Hdel.
  destruct (String.eqb xsrf token) eqn:Ex; simpl negb in Hdel; cbv iota in Hdel;
    [|destruct Hdel].
  apply String.eqb_eq in Ex.
  destruct (get_all st) as [links|] eqn:Ha;
    [|simpl in Hdel; destruct Hdel as [H|[]]; discriminate H].
  destruct (existsb (fun l => String.eqb (id l) link_id) links) eqn:Hex;
    simpl negb in Hdel; cbv iota in Hdel;
    [|simpl in Hdel; destruct Hdel as [H|[]]; discriminate H].
  destruct (delete_row st link_id) as [st' ok].
  simpl in Hdel. destruct Hdel as [H|[H|[]]]; [discriminate H|]. injection H as ->.
  split; [reflexivity|split; [exact Ex|]]. exists links. split; [reflexivity|].
  apply existsb_exists in Hex as [l [Hl He]]. apply String.eqb_eq in He.
  rewrite <- He. now apply in_map.
Qed.

(** X15: a [Renderer::delete] that does not reach the store's delete
    leaves the store as it was and redirects to [/] (or panics on a failed
    read); a failed delete redirects to the link's detail page. *)
Theorem renderer_delete_no_call_no_change (st : Store) (link_id xsrf : string)
    (Hno : ~ In (CDelete link_id) (snd (fst (renderer_delete Store token get_all delete_row st link_id xsrf)))) :
  snd (renderer_delete Store token get_all delete_row st link_id xsrf) = st
  /\ (fst (fst (renderer_delete Store token get_all delete_row st link_id xsrf)) = RRedirect "/"
      \/ fst (fst (renderer_delete Store token get_all delete_row st link_id xsrf)) = RPanic).
Proof.
  unfold renderer_delete in *.
  destruct (String.eqb xsrf token); simpl negb in *; cbv iota in *; [|auto].
  destruct (get_all st) as [links|]; [|auto].
  destruct (existsb _ links); simpl negb in *; cbv iota in *; [|auto].
  destruct (delete_row st link_id) as [st' ok]. exfalso. apply Hno. simpl. auto.
Qed.

End CrudProps.

(** X16: [handlers::create] answers 400 and inserts nothing when the
    normalized id of the requested short code is already a key of the
    table, even if no stored short code equals the requested one. *)
Theorem handlers_create_rejects_id_collision (Store : Type)
    (get_all_map : Store -> option (list (string * link)))
    (insert : Store -> link -> Store * result string string)
    (link_get : Store -> string -> result link string)
    (st : Store) (links : list (string * link)) (req_short req_target : string)
    (req_owner : option string) (l : link)
    (Hall : get_all_map st = Some links) (Hin : In (normalized_id req_short, l) links) :
  handlers_create Store get_all_map insert link_get st req_short req_target req_owner
  = (RStatus 400, [CGetAll], st).
Proof.
  unfold handlers_create. rewrite Hall.
  assert (E : existsb (fun kv => String.eqb (normalized_id req_short) (fst kv)) links = true).
  { apply existsb_exists. exists (normalized_id req_short, l). split; [exact Hin|].
    apply String.eqb_refl. }
  now rewrite E.
Qed.


(** X17: [handlers::get] reads the link under [normalized_id short] and
    makes no other store call (it never counts the click); it answers 404
    exactly when that read fails. *)
Theorem handlers_get_trace (Store : Type) (link_get : Store -> string -> option string)
    (uri_ok : string -> bool) (st : Store) (short_code full_path : string)
    (query_params : list (string * string)) :
  snd (handlers_get Store link_get uri_ok st short_code full_path query_params)
  = [LinkGet (normalized_id short_code)]
  /\ (fst (handlers_get Store link_get uri_ok st short_code full_path query_params) = RStatus 404
      <-> link_get st (normalized_id short_code) = None).
Proof.
  unfold handlers_get. split; [reflexivity|]. simpl.
  destruct (link_get st (normalized_id short_code)); [|tauto].
  split; [|discriminate].
  destruct (handlers_expand_link _ _ _); [destruct (uri_ok _)|]; discriminate.
Qed.

(** X18: a path ending in [+] is served by [json_detail]: with the path
    parameter's [+] stripped when it has one, and with the whole request
    path (leading [/] included) when it has none. *)
Theorem routes_get_plus (short_code path_as_str : string)
    (Hp : ends_with "+" path_as_str = true) :
  routes_get (short_code ++ "+") path_as_str = ToJsonDetail short_code
  /\ (ends_with "+" short_code = false -> routes_get short_code path_as_str = ToJsonDetail path_as_str).
Proof.
  unfold routes_get, strip_suffix. rewrite Hp. split.
  - assert (Hk : String.length (short_code ++ "+") - String.length "+"
                 = String.length short_code + 0) by (rewrite str_length_app; simpl; lia).
    assert (He : ends_with "+" (short_code ++ "+") = true).
    { unfold ends_with. rewrite Hk, drop_app. apply andb_true_intro.
      split; [apply Nat.leb_le; rewrite str_length_app; simpl; lia | reflexivity]. }
    rewrite He, Hk, take_app, str_app_nil. reflexivity.
  - intros Hs. now rewrite Hs.
Qed.

(** ** Concrete instances

    A one-row link table holding the short code [atob]; inserts echo the
    new row's id, reads by id fail, deletes succeed. *)

Definition demo_link : link := Link "atob" "atob" "https://a.example" None.
Definition demo_get_all (_ : unit) : option (list link) := Some [demo_link].
Definition demo_get_all_map (_ : unit) : option (list (string * link)) :=
  Some [(id demo_link, demo_link)].
Definition demo_insert (st : unit) (l : link) : unit * result string string := (st, Ok (id l)).
Definition demo_get_by_id (_ : unit) (i : string) : result link string := Err "no such link".
Definition demo_delete (st : unit) (i : string) : unit * bool := (st, true).

(** A Renderer conversion that gives every new link the same UUID. *)
Definition uuid_into (req_short req_target : string) : link :=
  Link "7f1c1a5e-0000-4000-8000-000000000001" req_short req_target None.

Lemma renderer_create_xsrf_mismatch_witness :
  "forged" <> "tok"
  /\ renderer_create unit "tok" demo_get_all demo_insert uuid_into tt "a-b" "https://b.example" "forged"
     = (RRedirect "/", [], tt).
Proof.
  split; [discriminate|].
  apply (renderer_create_xsrf_mismatch unit "tok" demo_get_all demo_insert uuid_into tt
           "a-b" "https://b.example" "forged").
  discriminate.
Defined.

Lemma renderer_create_duplicate_short_witness :
  demo_get_all tt = Some [demo_link] /\ In demo_link [demo_link]
  /\ renderer_create unit "tok" demo_get_all demo_insert uuid_into tt (short demo_link)
       "https://b.example" "tok"
     = (RStatus 400, [CGetAll], tt).
Proof.
  split; [reflexivity|split; [left; reflexivity|]].
  apply (renderer_create_duplicate_short unit "tok" demo_get_all demo_insert uuid_into tt
           [demo_link] demo_link "https://b.example"); [reflexivity|left; reflexivity].
Defined.

(** The stored short code is [atob]: [a-b], whose lookup key is the same,
    passes the check and is inserted. *)
Lemma renderer_create_inserts_request_witness :
  normalized_id "a-b" = normalized_id (short demo_link)
  /\ Forall (fun l => short l <> "a-b") [demo_link]
  /\ (let '(r, evs, st') :=
        renderer_create unit "tok" demo_get_all demo_insert uuid_into tt "a-b" "https://b.example" "tok" in
      r = RRedirect "/"
      /\ firstn 2 evs = [CGetAll; CInsert (uuid_into "a-b" "https://b.example")]
      /\ st' = fst (demo_insert tt (uuid_into "a-b" "https://b.example"))).
Proof.
  split; [reflexivity|].
  assert (Hf : Forall (fun l => short l <> "a-b") [demo_link])
    by (constructor; [discriminate|constructor]).
  split; [exact Hf|].
  apply (renderer_create_inserts_request unit "tok" demo_get_all demo_insert uuid_into tt
           [demo_link] "a-b" "https://b.example"); [reflexivity|exact Hf].
Defined.

Lemma renderer_new_link_duplicate_short_witness :
  demo_get_all tt = Some [demo_link] /\ In demo_link [demo_link]
  /\ renderer_new_link unit demo_get_all demo_insert demo_get_by_id uuid_into tt
       (short demo_link) "https://b.example"
     = (RMessage "Link with short code already exists" 400, [CGetAll], tt).
Proof.
  split; [reflexivity|split; [left; reflexivity|]].
  apply (renderer_new_link_duplicate_short unit demo_get_all demo_insert demo_get_by_id
           uuid_into tt [demo_link] demo_link "https://b.example"); [reflexivity|left; reflexivity].
Defined.



Lemma renderer_delete_guarded_witness :
  In (CDelete "atob") (snd (fst (renderer_delete unit "tok" demo_get_all demo_delete tt "atob" "tok")))
  /\ ("atob" = "atob" /\ "tok" = "tok"
      /\ exists links, demo_get_all tt = Some links /\ In "atob" (map id links)).
Proof.
  assert (Hin : In (CDelete "atob")
                  (snd (fst (renderer_delete unit "tok" demo_get_all demo_delete tt "atob" "tok"))))
    by (vm_compute; right; left; reflexivity).
  split; [exact Hin|].
  exact (renderer_delete_guarded unit "tok" demo_get_all demo_delete tt "atob" "tok" "atob" Hin).
Defined.

Lemma renderer_delete_no_call_no_change_witness :
  ~ In (CDelete "zzz") (snd (fst (renderer_delete unit "tok" demo_get_all demo_delete tt "zzz" "tok")))
  /\ (snd (renderer_delete unit "tok" demo_get_all demo_delete tt "zzz" "tok") = tt
      /\ (fst (fst (renderer_delete unit "tok" demo_get_all demo_delete tt "zzz" "tok")) = RRedirect "/"
          \/ fst (fst (renderer_delete unit "tok" demo_get_all demo_delete tt "zzz" "tok")) = RPanic)).
Proof.
  assert (Hno : ~ In (CDelete "zzz")
                  (snd (fst (renderer_delete unit "tok" demo_get_all demo_delete tt "zzz" "tok"))))
    by (vm_compute; intros [H|[]]; discriminate H).
  split; [exact Hno|].
  exact (renderer_delete_no_call_no_change unit "tok" demo_get_all demo_delete tt "zzz" "tok" Hno).
Defined.

(** [handlers::create] turns [a-b] away: its id [atob] is already a key. *)
Lemma handlers_create_rejects_id_collision_witness :
  demo_get_all_map tt = Some [(id demo_link, demo_link)]
  /\ In (normalized_id "a-b", demo_link) [(id demo_link, demo_link)]
  /\ handlers_create unit demo_get_all_map demo_insert demo_get_by_id tt "a-b" "https://b.example" None
     = (RStatus 400, [CGetAll], tt).
Proof.
  assert (Hin : In (normalized_id "a-b", demo_link) [(id demo_link, demo_link)])
    by (vm_compute; left; reflexivity).
  split; [reflexivity|split; [exact Hin|]].
  exact (handlers_create_rejects_id_collision unit demo_get_all_map demo_insert demo_get_by_id tt
           [(id demo_link, demo_link)] "a-b" "https://b.example" None demo_link eq_refl Hin).
Defined.

(** The request [/foo/bar+] reaches [json_detail] with ["/foo/bar+"]. *)
Lemma routes_get_plus_witness :
  ends_with "+" "/foo/bar+" = true
  /\ (routes_get ("foo" ++ "+") "/foo/bar+" = ToJsonDetail "foo"
      /\ (ends_with "+" "foo" = false -> routes_get "foo" "/foo/bar+" = ToJsonDetail "/foo/bar+")).
Proof.
  split; [reflexivity|].
  apply (routes_get_plus "foo" "/foo/bar+"). reflexivity.
Defined.
